(** * Zone14 science worker: a verification development for [science-worker/main.py]

    The module under study is eleven lines of Python:
<<
    from fastapi import FastAPI

    app = FastAPI()

    @app.get("/health")
    def health_check():
        return {"status": "ok", "service": "science-worker"}

    @app.get("/")
    def read_root():
        return {"message": "Zone14 Science Worker"}
>>
    The development is layered as the program is:
    - Python: the fragment of the object model the module exercises: [str]
      to [str] dictionaries in insertion order, a store of objects addressed
      by reference, the module namespace, and the monad [Py] of computations
      that change the interpreter state and may raise;
    - Framework: what the module asks of the web framework (a class to
      instantiate, a decorator that registers a route) and what the framework
      does with the registry (matching a request, rendering the returned
      dictionary).  That code is not part of the repository: it is modelled
      from the specification, and each such definition says so;
    - Main: the module itself, statement by statement: the two handlers and
      the module body that builds the registry [app];
    - Server: requests served one after the other, and requests in flight
      together whose steps interleave;
    - the contract of the two endpoints, the invariants of a running process,
      and the properties proved of them. *)

From Stdlib Require Import String Ascii List.
From stdpp Require Import base option gmap sets list strings.

(* ===================================================================== *)
(** * Python: values, objects, state *)
(* ===================================================================== *)

(** A [dict] with [str] keys and [str] values.  Python dictionaries keep
    insertion order, and the order is visible in the rendered body, so the
    model is the list of items in that order. *)
Definition PyDict : Type := list (string * string).

(** [d[k] = v]: an existing key keeps its position and takes the new value,
    a new key goes last. *)
Fixpoint dict_setitem (k v : string) (d : PyDict) : PyDict :=
  match d with
  | [] => [(k, v)]
  | (k', v') :: d' =>
      if decide (k = k') then (k', v) :: d' else (k', v') :: dict_setitem k v d'
  end.

(** A dictionary display [{k1: v1, ..., kn: vn}]: the items are stored
    left to right into an empty dictionary. *)
Definition dict_display (items : list (string * string)) : PyDict :=
  fold_left (fun d kv => dict_setitem kv.1 kv.2 d) items [].

(** The dictionary seen as a finite map (order forgotten). *)
Definition dict_map (d : PyDict) : gmap string string :=
  fold_left (fun m kv => <[kv.1 := kv.2]> m) d ∅.

(** References into the object store. *)
Definition loc : Type := positive.

(** The functions the module defines.  A route keeps a reference to its
    endpoint; the code a reference stands for is given by [call] below. *)
Inductive Function : Type :=
  | fn_health_check
  | fn_read_root.

(** One entry of the route registry. *)
Record APIRoute : Type := mkRoute {
  route_path : string;
  route_methods : list string;
  route_endpoint : Function;
  route_status_code : nat
}.

(** The application object: the registry of routes, in registration order. *)
Record FastAPI : Type := mkApp { routes : list APIRoute }.

(** Objects in the store. *)
Inductive PyObject : Type :=
  | ObjDict (d : PyDict)
  | ObjApp (a : FastAPI).

(** What a name of the module namespace can be bound to. *)
Inductive Value : Type :=
  | VClassFastAPI
  | VFunction (f : Function)
  | VRef (l : loc).

(** The state of the interpreter: the process environment, the module
    namespace, and the object store. *)
Record PyState : Type := mkState {
  environ : gmap string string;
  globals : gmap string Value;
  heap : gmap loc PyObject
}.

Definition set_globals (g : gmap string Value) (s : PyState) : PyState :=
  {| environ := environ s; globals := g; heap := heap s |}.

Definition set_heap (h : gmap loc PyObject) (s : PyState) : PyState :=
  {| environ := environ s; globals := globals s; heap := h |}.

Inductive PyExn : Type :=
  | NameError (name : string)
  | AttributeError
  | TypeError
  | SystemError.

(** The result of running a piece of Python: it returns or it raises. *)
Inductive Outcome (A : Type) : Type :=
  | Returns (a : A)
  | Raises (e : PyExn).
Arguments Returns {A} a.
Arguments Raises {A} e.

(** Computations over the interpreter state that may raise. *)
Definition Py (A : Type) : Type := PyState -> Outcome A * PyState.

Definition ret {A} (a : A) : Py A := fun s => (Returns a, s).

Definition raise {A} (e : PyExn) : Py A := fun s => (Raises e, s).

Definition bind {A B} (m : Py A) (k : A -> Py B) : Py B :=
  fun s =>
    match m s with
    | (Returns a, s') => k a s'
    | (Raises e, s') => (Raises e, s')
    end.

(** [x ← m; k] and [m;; k] are the sequencing of [Py]. *)
#[global] Instance Py_ret : MRet Py := @ret.
#[global] Instance Py_bind : MBind Py := fun A B k m => bind m k.

(** [LOAD_NAME]: an unbound name raises [NameError]. *)
Definition load_name (x : string) : Py Value :=
  fun s =>
    match globals s !! x with
    | Some v => (Returns v, s)
    | None => (Raises (NameError x), s)
    end.

(** [STORE_NAME]. *)
Definition store_name (x : string) (v : Value) : Py unit :=
  fun s => (Returns tt, set_globals (<[x := v]> (globals s)) s).

(** Allocation of a new object: it gets a reference no live object has. *)
Definition alloc (o : PyObject) : Py loc :=
  fun s =>
    let l := fresh (dom (heap s)) in
    (Returns l, set_heap (<[l := o]> (heap s)) s).

(** Reading a dictionary through a reference. *)
Definition load_dict (l : loc) : Py PyDict :=
  fun s =>
    match heap s !! l with
    | Some (ObjDict d) => (Returns d, s)
    | Some _ => (Raises TypeError, s)
    | None => (Raises SystemError, s)
    end.

(** The last reference to an object is dropped: the object is freed (what
    reference counting does with a value nobody holds any more). *)
Definition decref (l : loc) : Py unit :=
  fun s => (Returns tt, set_heap (delete l (heap s)) s).

(* ===================================================================== *)
(** * Framework: what the module asks of FastAPI *)
(* ===================================================================== *)

(** Modelled from the spec: an incoming HTTP request, as the framework
    hands it over: method, path, and the parts no route of this module looks
    at (query parameters, headers, body). *)
Record Request : Type := mkRequest {
  req_method : string;
  req_path : string;
  req_query : list (string * string);
  req_headers : list (string * string);
  req_body : string
}.

(** Modelled from the spec: an HTTP response: status, [Content-Type], and
    body text. *)
Record Response : Type := mkResponse {
  status : nat;
  content_type : string;
  body : string
}.

(** A [GET] request for [path]; query, headers and body are the caller's. *)
Definition GET (path : string) (query headers : list (string * string))
    (data : string) : Request :=
  mkRequest "GET" path query headers data.

(** Modelled from the spec: the class [FastAPI] comes from the framework, not
    from the repository.  Instantiating it gives an application object whose
    registry holds no route of the module yet. *)
Definition FastAPI_new (cls : Value) : Py Value :=
  match cls with
  | VClassFastAPI => l ← alloc (ObjApp (mkApp [])); mret (VRef l)
  | _ => raise TypeError
  end.

(** Modelled from the spec: registering an endpoint appends a route to the
    registry of the application object, in place.  Section 6 of the spec gives
    every route of the module status 200. *)
Definition add_api_route (self : loc) (path : string) (f : Function)
    (methods : list string) : Py unit :=
  fun s =>
    match heap s !! self with
    | Some (ObjApp a) =>
        let a' := mkApp (routes a ++ [mkRoute path methods f 200]) in
        (Returns tt, set_heap (<[self := ObjApp a']> (heap s)) s)
    | Some _ => (Raises AttributeError, s)
    | None => (Raises SystemError, s)
    end.

(** Modelled from the spec: the decorator [@self.get(path)] registers the
    decorated function for method [GET] at [path] and hands the function back
    unchanged. *)
Definition FastAPI_get (self : Value) (path : string) (f : Function) : Py Function :=
  match self with
  | VRef l => add_api_route l path f ["GET"];; mret f
  | _ => raise AttributeError
  end.

(* ===================================================================== *)
(** * Main: the module [science-worker/main.py] *)
(* ===================================================================== *)

(** [def health_check(): return {"status": "ok", "service": "science-worker"}]

    The body is a single [return] of a dictionary display: a new dictionary
    object is built and its reference returned. *)
Definition health_check : Py loc :=
  alloc (ObjDict (dict_display [("status", "ok"); ("service", "science-worker")])).

(** [def read_root(): return {"message": "Zone14 Science Worker"}] *)
Definition read_root : Py loc :=
  alloc (ObjDict (dict_display [("message", "Zone14 Science Worker")])).

(** Calling a function of the module through a reference to it. *)
Definition call (f : Function) : Py loc :=
  match f with
  | fn_health_check => health_check
  | fn_read_root => read_root
  end.

(** The module body, statement by statement:
<<
    from fastapi import FastAPI
    app = FastAPI()
    @app.get("/health")
    def health_check(): ...
    @app.get("/")
    def read_root(): ...
>>
    A decorated definition evaluates the decorator expression, makes the
    function, applies the decorator to it and binds the name to the result. *)
Definition main : Py unit :=
  store_name "FastAPI" VClassFastAPI;;
  cls ← load_name "FastAPI";
  a ← FastAPI_new cls;
  store_name "app" a;;
  self ← load_name "app";
  f ← FastAPI_get self "/health" fn_health_check;
  store_name "health_check" (VFunction f);;
  self ← load_name "app";
  f ← FastAPI_get self "/" fn_read_root;
  store_name "read_root" (VFunction f).

(** The registry the module body leaves in [app] (lemma [main_spec]). *)
Definition app : FastAPI :=
  mkApp [mkRoute "/health" ["GET"] fn_health_check 200;
         mkRoute "/" ["GET"] fn_read_root 200].

(** ** Rendering a dictionary as a JSON body *)

Definition dquote : ascii := "034"%char.
Definition backslash : ascii := "092"%char.

Definition hex_digit (n : nat) : ascii :=
  nth n ["0"; "1"; "2"; "3"; "4"; "5"; "6"; "7";
         "8"; "9"; "a"; "b"; "c"; "d"; "e"; "f"]%char "0"%char.

(** Modelled from the spec: the JSON encoder belongs to the runtime.  A
    character of a string is written as it is, except the quote, the
    backslash and the control characters, which are escaped. *)
Definition json_escape_char (c : ascii) : string :=
  let n := nat_of_ascii c in
  if decide (n = 34) then String backslash (String dquote EmptyString)
  else if decide (n = 92) then String backslash (String backslash EmptyString)
  else if decide (n = 10) then String backslash "n"
  else if decide (n = 13) then String backslash "r"
  else if decide (n = 9) then String backslash "t"
  else if decide (n = 8) then String backslash "b"
  else if decide (n = 12) then String backslash "f"
  else if decide (n < 32) then
    String backslash ("u00" +:+ String (hex_digit (n / 16)) (String (hex_digit (n mod 16)) EmptyString))
  else String c EmptyString.

Fixpoint json_escape (s : string) : string :=
  match s with
  | EmptyString => EmptyString
  | String c s' => json_escape_char c +:+ json_escape s'
  end.

Definition json_string (s : string) : string :=
  String dquote (json_escape s +:+ String dquote EmptyString).

Definition json_item (kv : string * string) : string :=
  json_string kv.1 +:+ ":" +:+ json_string kv.2.

Fixpoint json_items (d : PyDict) : string :=
  match d with
  | [] => EmptyString
  | [kv] => json_item kv
  | kv :: d' => json_item kv +:+ "," +:+ json_items d'
  end.

(** Modelled from the spec: the body of a JSON response is the compact
    rendering of the returned dictionary, items in insertion order (the
    bodies of scenarios 1 and 3 of section 8). *)
Definition json_dumps (d : PyDict) : string :=
  "{" +:+ json_items d +:+ "}".

(** Modelled from the spec: a returned dictionary becomes a response with the
    route's status, [Content-Type: application/json] and the JSON rendering
    as body (section 6). *)
Definition JSONResponse (content : PyDict) (status_code : nat) : Response :=
  mkResponse status_code "application/json" (json_dumps content).

(** ** Routing and serving *)

(** Modelled from the spec: a route matches a request by path and method
    (section 2); the module's paths have no parameters, so a path matches when
    it is the same string. *)
Definition route_matches (r : APIRoute) (req : Request) : bool :=
  bool_decide (route_path r = req_path req)
  && bool_decide (req_method req ∈ route_methods r).

(** Modelled from the spec: the first route of the registry that matches
    serves the request. *)
Definition find_route (rs : list APIRoute) (req : Request) : option APIRoute :=
  List.find (fun r => route_matches r req) rs.

(** Reading the application object through a reference. *)
Definition load_app (l : loc) : Py FastAPI :=
  fun s =>
    match heap s !! l with
    | Some (ObjApp a) => (Returns a, s)
    | Some _ => (Raises TypeError, s)
    | None => (Raises SystemError, s)
    end.

(** The spec leaves to the framework's defaults every request that matches
    no route of the module (a 404, a 405, its own documentation pages) and
    every failure of an endpoint: the development is parametric in both
    answers. *)
Record Framework : Type := mkFramework {
  framework_default : Request -> Response;
  framework_error : PyExn -> Response
}.

Section Server.

Variable fw : Framework.

(** Modelled from the spec: serving one request.  The registry is searched
    for a route; its endpoint is called, the returned dictionary is read and
    rendered, and the reference to it is dropped. *)
Definition handle_request (app_ref : loc) (req : Request) : Py Response :=
  a ← load_app app_ref;
  match find_route (routes a) req with
  | Some r =>
      obj ← call (route_endpoint r);
      content ← load_dict obj;
      decref obj;;
      mret (JSONResponse content (route_status_code r))
  | None => mret (framework_default fw req)
  end.

(** Modelled from the spec: what the client gets.  An exception that
    escapes the endpoint is answered by the framework. *)
Definition serve_one (app_ref : loc) (req : Request) (s : PyState) : Response * PyState :=
  match handle_request app_ref req s with
  | (Returns resp, s') => (resp, s')
  | (Raises e, s') => (framework_error fw e, s')
  end.

(** Modelled from the spec: requests served one after the other. *)
Fixpoint serve (app_ref : loc) (reqs : list Request) (s : PyState) : list Response * PyState :=
  match reqs with
  | [] => ([], s)
  | req :: reqs' =>
      let '(resp, s1) := serve_one app_ref req s in
      let '(resps, s2) := serve app_ref reqs' s1 in
      (resp :: resps, s2)
  end.

(** Modelled from the spec: the start of the process.  The module body runs
    in an empty namespace, then the server takes the object bound to [app].
    [None] when the import raises or [app] is not bound to an object. *)
Definition startup (s0 : PyState) : option (loc * PyState) :=
  match main (set_globals ∅ s0) with
  | (Returns _, s) =>
      match globals s !! "app" with
      | Some (VRef l) => Some (l, s)
      | _ => None
      end
  | (Raises _, _) => None
  end.

(** The responses of a process started in [s0] to the requests [reqs]. *)
Definition run (s0 : PyState) (reqs : list Request) : option (list Response) :=
  '(l, s) ← startup s0; Some (serve l reqs s).1.

(** The state of a process started in [s0] once it has served [reqs]. *)
Definition state_after (s0 : PyState) (reqs : list Request) : option (loc * PyState) :=
  '(l, s) ← startup s0; Some (l, (serve l reqs s).2).

(** The response to [req] of a process started in [s0] that has served
    [history] before. *)
Definition respond (s0 : PyState) (history : list Request) (req : Request) : option Response :=
  '(l, s) ← state_after s0 history; Some (serve_one l req s).1.

(** ** Requests in flight

    Modelled from the spec (section 5 leaves the concurrency model to the
    hosting runtime): several requests are in progress at once and their
    steps interleave on the one interpreter state.  A task is a request with
    the point it has reached; every step of [handle_request] is one
    transition: routing, the call of the endpoint, rendering, and dropping
    the returned object. *)
Inductive Task : Type :=
  | Received (req : Request)
  | Routed (r : APIRoute)
  | Returned (r : APIRoute) (obj : loc)
  | Rendered (resp : Response) (obj : loc)
  | Sent (resp : Response).

Definition task_step (app_ref : loc) (t : Task) : Py Task :=
  match t with
  | Received req =>
      a ← load_app app_ref;
      match find_route (routes a) req with
      | Some r => mret (Routed r)
      | None => mret (Sent (framework_default fw req))
      end
  | Routed r =>
      obj ← call (route_endpoint r); mret (Returned r obj)
  | Returned r obj =>
      content ← load_dict obj;
      mret (Rendered (JSONResponse content (route_status_code r)) obj)
  | Rendered resp obj =>
      decref obj;; mret (Sent resp)
  | Sent resp => mret (Sent resp)
  end.

Definition step_task (app_ref : loc) (t : Task) (s : PyState) : Task * PyState :=
  match task_step app_ref t s with
  | (Returns t', s') => (t', s')
  | (Raises e, s') => (Sent (framework_error fw e), s')
  end.

(** [n] steps of one task with nothing else running. *)
Fixpoint steps_task (n : nat) (app_ref : loc) (t : Task) (s : PyState) : Task * PyState :=
  match n with
  | 0 => (t, s)
  | S n' => let '(t', s') := step_task app_ref t s in steps_task n' app_ref t' s'
  end.

(** The tasks in flight and the state they share.  The scheduler picks the
    task that moves next; an index with no task moves nothing. *)
Definition pool_step (app_ref : loc) (c : list Task * PyState) (i : nat) : list Task * PyState :=
  match c.1 !! i with
  | Some t => let '(t', s') := step_task app_ref t c.2 in (<[i := t']> c.1, s')
  | None => c
  end.

(** A schedule is the sequence of the scheduler's picks. *)
Definition run_schedule (app_ref : loc) (sched : list nat) (c : list Task * PyState) :
    list Task * PyState :=
  fold_left (pool_step app_ref) sched c.

(** The requests [reqs] are all in flight at once in a process started in
    [s0], and move as [sched] says. *)
Definition run_concurrent (s0 : PyState) (reqs : list Request) (sched : list nat) :
    option (list Task * PyState) :=
  '(l, s) ← startup s0; Some (run_schedule l sched (Received <$> reqs, s)).

End Server.

(* ===================================================================== *)
(** * The contract of the two endpoints *)
(* ===================================================================== *)

(** ** Reading a JSON body back

    To say which mapping a body denotes, whatever its spacing, a body is
    decoded again: an object whose members are strings. *)

Definition is_ws (c : ascii) : bool :=
  let n := nat_of_ascii c in
  bool_decide (n = 32) || bool_decide (n = 9) || bool_decide (n = 10) || bool_decide (n = 13).

Fixpoint skip_ws (s : string) : string :=
  match s with
  | String c s' => if is_ws c then skip_ws s' else s
  | EmptyString => EmptyString
  end.

Definition unescape (c : ascii) : option ascii :=
  let n := nat_of_ascii c in
  if decide (n = 34) then Some dquote
  else if decide (n = 92) then Some backslash
  else if decide (n = 47) then Some "/"%char
  else if decide (n = 110) then Some "010"%char
  else if decide (n = 114) then Some "013"%char
  else if decide (n = 116) then Some "009"%char
  else if decide (n = 98) then Some "008"%char
  else if decide (n = 102) then Some "012"%char
  else None.

Definition hex_value (c : ascii) : option nat :=
  let n := nat_of_ascii c in
  if decide (48 ≤ n ∧ n ≤ 57) then Some (n - 48)
  else if decide (97 ≤ n ∧ n ≤ 102) then Some (n - 87)
  else if decide (65 ≤ n ∧ n ≤ 70) then Some (n - 55)
  else None.

(** The characters of a string literal after its opening quote, up to the
    closing quote, and what follows it.  Of the [u] escapes only those of
    one byte are read, the ones the encoder above writes. *)
Fixpoint parse_string_body (s : string) : option (string * string) :=
  match s with
  | EmptyString => None
  | String c s' =>
      if decide (c = dquote) then Some (EmptyString, s')
      else if decide (c = backslash) then
        match s' with
        | String e s'' =>
            if decide (e = "u"%char) then
              match s'' with
              | String "0" (String "0" (String h1 (String h2 s3))) =>
                  match hex_value h1, hex_value h2, parse_string_body s3 with
                  | Some a, Some b, Some (r, rest) =>
                      Some (String (ascii_of_nat (16 * a + b)) r, rest)
                  | _, _, _ => None
                  end
              | _ => None
              end
            else
              match unescape e, parse_string_body s'' with
              | Some c', Some (r, rest) => Some (String c' r, rest)
              | _, _ => None
              end
        | EmptyString => None
        end
      else if decide (nat_of_ascii c < 32) then None
      else
        match parse_string_body s' with
        | Some (r, rest) => Some (String c r, rest)
        | None => None
        end
  end.

(** A string literal, after blanks. *)
Definition parse_string (s : string) : option (string * string) :=
  match skip_ws s with
  | String c s' => if decide (c = dquote) then parse_string_body s' else None
  | EmptyString => None
  end.

(** A given character, after blanks. *)
Definition expect (c : ascii) (s : string) : option string :=
  match skip_ws s with
  | String c' s' => if decide (c' = c) then Some s' else None
  | EmptyString => None
  end.

(** The members of an object after its opening brace; a key met twice keeps
    its place and takes the later value. *)
Fixpoint parse_members (fuel : nat) (s : string) (acc : PyDict) : option (PyDict * string) :=
  match fuel with
  | 0 => None
  | S fuel' =>
      '(k, s1) ← parse_string s;
      s2 ← expect ":" s1;
      '(v, s3) ← parse_string s2;
      let acc' := dict_setitem k v acc in
      match expect "," s3 with
      | Some s4 => parse_members fuel' s4 acc'
      | None => s4 ← expect "}" s3; Some (acc', s4)
      end
  end.

Definition json_loads (s : string) : option PyDict :=
  s1 ← expect "{" s;
  '(d, rest) ← match expect "}" s1 with
               | Some s2 => Some ([], s2)
               | None => parse_members (String.length s) s1 []
               end;
  match skip_ws rest with
  | EmptyString => Some d
  | String _ _ => None
  end.

(** ** The two payloads and responses, as the spec writes them *)

(** [s] between double quotes. *)
Definition quoted (s : string) : string :=
  String dquote (s +:+ String dquote EmptyString).

Definition health_payload : PyDict :=
  [("status", "ok"); ("service", "science-worker")].

Definition root_payload : PyDict :=
  [("message", "Zone14 Science Worker")].

(** [{"status":"ok","service":"science-worker"}] *)
Definition health_body : string :=
  "{" +:+ quoted "status" +:+ ":" +:+ quoted "ok" +:+ ","
      +:+ quoted "service" +:+ ":" +:+ quoted "science-worker" +:+ "}".

(** [{"status": "ok", "service": "science-worker"}], spaced as in the table
    of section 6. *)
Definition health_body_spaced : string :=
  "{" +:+ quoted "status" +:+ ": " +:+ quoted "ok" +:+ ", "
      +:+ quoted "service" +:+ ": " +:+ quoted "science-worker" +:+ "}".

(** [{"message":"Zone14 Science Worker"}] *)
Definition root_body : string :=
  "{" +:+ quoted "message" +:+ ":" +:+ quoted "Zone14 Science Worker" +:+ "}".

(** [{"message": "Zone14 Science Worker"}] *)
Definition root_body_spaced : string :=
  "{" +:+ quoted "message" +:+ ": " +:+ quoted "Zone14 Science Worker" +:+ "}".

Definition health_response : Response :=
  mkResponse 200 "application/json" health_body.

Definition root_response : Response :=
  mkResponse 200 "application/json" root_body.

(** The dictionary each function of the module returns. *)
Definition payload (f : Function) : PyDict :=
  match f with
  | fn_health_check => health_payload
  | fn_read_root => root_payload
  end.

(** The table of section 6 of the spec: the fixed response of each
    endpoint. *)
Definition contract (req : Request) : option Response :=
  if decide (req_method req = "GET") then
    if decide (req_path req = "/health") then Some health_response
    else if decide (req_path req = "/") then Some root_response
    else None
  else None.

(** A process with nothing in it yet, and a framework that answers 404 to
    what the module does not route and 500 to an endpoint that raises: the
    inputs of the examples. *)
Definition s_init : PyState := mkState ∅ ∅ ∅.

Definition not_found (req : Request) : Response :=
  mkResponse 404 "application/json" "Not Found".

Definition server_error (e : PyExn) : Response :=
  mkResponse 500 "text/plain" "Internal Server Error".

Definition plain_framework : Framework := mkFramework not_found server_error.

(** ** The state of a running process *)

(** The namespace the module body leaves, [l] being the reference of the
    application object. *)
Definition module_globals (l : loc) : gmap string Value :=
  <["read_root" := VFunction fn_read_root]>
    (<["health_check" := VFunction fn_health_check]>
       (<["app" := VRef l]> (<["FastAPI" := VClassFastAPI]> ∅))).

(** The state of a process that was in [s0] and has imported the module. *)
Definition module_state (s0 : PyState) : PyState :=
  let l := fresh (dom (heap s0)) in
  mkState (environ s0) (module_globals l) (<[l := ObjApp app]> (heap s0)).

(** The invariant of a running process: the reference the server holds
    leads to the registry the module built. *)
Definition loaded (l : loc) (s : PyState) : Prop :=
  heap s !! l = Some (ObjApp app).

(** The object a task holds a reference to, if any. *)
Definition task_obj (t : Task) : option loc :=
  match t with
  | Returned _ o | Rendered _ o => Some o
  | Received _ | Routed _ | Sent _ => None
  end.

Definition owns (pool : list Task) (o : loc) : Prop :=
  ∃ i t, pool !! i = Some t ∧ task_obj t = Some o.

(** The number of steps a task is away from its response, at most. *)
Definition remaining (t : Task) : nat :=
  match t with
  | Received _ => 4
  | Routed _ => 3
  | Returned _ _ => 2
  | Rendered _ _ => 1
  | Sent _ => 0
  end.

(** The steps task [j] of the pool is away from its response. *)
Definition left_of (pool : list Task) (j : nat) : nat :=
  from_option remaining 0 (pool !! j).

Section Invariant.

Variable fw : Framework.

(** The answer to a request, read off the registry. *)
Definition answer (req : Request) : Response :=
  match find_route (routes app) req with
  | Some r => JSONResponse (payload (route_endpoint r)) (route_status_code r)
  | None => framework_default fw req
  end.

(** What a task that works on [req] may be, in state [s]. *)
Definition task_ok (req : Request) (t : Task) (s : PyState) : Prop :=
  match t with
  | Received req' => req' = req
  | Routed r => find_route (routes app) req = Some r
  | Returned r o =>
      find_route (routes app) req = Some r
      ∧ heap s !! o = Some (ObjDict (payload (route_endpoint r)))
  | Rendered resp o => resp = answer req ∧ is_Some (heap s !! o)
  | Sent resp => resp = answer req
  end.

(** The tasks [c.1] work on the requests [reqs] in a process whose state
    was [base] when they arrived: every task is where its request allows, no
    two tasks hold the same object, and the state differs from [base] by the
    objects the tasks hold and by nothing else. *)
Record pool_inv (base : PyState) (reqs : list Request) (c : list Task * PyState) : Prop := {
  inv_environ : environ c.2 = environ base;
  inv_globals : globals c.2 = globals base;
  inv_length : length c.1 = length reqs;
  inv_tasks : ∀ i req t, reqs !! i = Some req → c.1 !! i = Some t → task_ok req t c.2;
  inv_excl : ∀ i j ti tj o,
    c.1 !! i = Some ti → c.1 !! j = Some tj →
    task_obj ti = Some o → task_obj tj = Some o → i = j;
  inv_new : ∀ o, owns c.1 o → heap base !! o = None;
  inv_frame : ∀ x, ¬ owns c.1 x → heap c.2 !! x = heap base !! x
}.

End Invariant.

(** ** What it means for a handler to keep to itself *)

(** [h] reads and writes no module-level name: under any other namespace it
    gives the same result and leaves that namespace as it found it. *)
Definition ignores_globals (h : Py loc) : Prop :=
  ∀ g s, h (set_globals g s) = ((h s).1, set_globals g (h s).2).

(** Every call of [h] returns a reference no object had, to a new object
    that holds [d]. *)
Definition returns_fresh (h : Py loc) (d : PyDict) : Prop :=
  ∀ s, ∃ o, (h s).1 = Returns o
    ∧ heap s !! o = None
    ∧ heap (h s).2 !! o = Some (ObjDict d).

(** [h] gives the same dictionary in any two states. *)
Definition state_independent (h : Py loc) : Prop :=
  ∀ s1 s2, ∃ o1 o2 d,
    (h s1).1 = Returns o1
    ∧ (h s2).1 = Returns o2
    ∧ heap (h s1).2 !! o1 = Some (ObjDict d)
    ∧ heap (h s2).2 !! o2 = Some (ObjDict d).

(** [h] changes nothing that exists: environment, namespace, and every live
    object are after the call what they were before. *)
Definition preserves_state (h : Py loc) : Prop :=
  ∀ s, environ (h s).2 = environ s
    ∧ globals (h s).2 = globals s
    ∧ ∀ x, is_Some (heap s !! x) → heap (h s).2 !! x = heap s !! x.

(** Two calls of [h] do not meet: whatever [v] the object of the first call
    is overwritten with, the second call returns another object, with [d] in
    it, and the first object still holds [v]. *)
Definition calls_independent (h : Py loc) (d : PyDict) : Prop :=
  ∀ s v, ∃ o1 s1 o2 s2,
    h s = (Returns o1, s1)
    ∧ h (set_heap (<[o1 := v]> (heap s1)) s1) = (Returns o2, s2)
    ∧ o1 ≠ o2
    ∧ heap s2 !! o1 = Some v
    ∧ heap s2 !! o2 = Some (ObjDict d).

#[local] Arguments find_route : simpl never.
#[local] Arguments routes : simpl never.

(* ===================================================================== *)
(** * Properties of the object store and of the [Py] monad *)
(* ===================================================================== *)

Lemma set_heap_id (s : PyState) : set_heap (heap s) s = s.
Proof. by destruct s. Qed.

Lemma set_heap_set_heap (h h' : gmap loc PyObject) (s : PyState) :
  set_heap h (set_heap h' s) = set_heap h s.
Proof. done. Qed.

Lemma fresh_not_live (s : PyState) : heap s !! fresh (dom (heap s)) = None.
Proof. apply not_elem_of_dom, is_fresh. Qed.

(** An object that is allocated and then dropped leaves the store as it
    was. *)
Lemma alloc_decref (o : PyObject) (s : PyState) :
  set_heap (delete (fresh (dom (heap s))) (<[fresh (dom (heap s)) := o]> (heap s))) s = s.
Proof. rewrite delete_insert_id by apply fresh_not_live. apply set_heap_id. Qed.

Lemma bind_returns {A B} (m : Py A) (k : A -> Py B) s a s' :
  m s = (Returns a, s') -> (m ≫= k) s = k a s'.
Proof. intros H. unfold mbind, Py_bind, bind. by rewrite H. Qed.

(* ===================================================================== *)
(** * The decoder reads back what the encoder writes *)
(* ===================================================================== *)

Lemma string_app_cons (x : ascii) (a b : string) :
  String x a +:+ b = String x (a +:+ b).
Proof. reflexivity. Qed.

Lemma string_app_assoc (a b c : string) : (a +:+ b) +:+ c = a +:+ (b +:+ c).
Proof.
  induction a as [|x a IH]; [done|]. by rewrite !string_app_cons, IH.
Qed.

Lemma string_length_app (a b : string) :
  String.length (a +:+ b) = String.length a + String.length b.
Proof.
  induction a as [|x a IH]; [done|]. rewrite string_app_cons. cbn. by rewrite IH.
Qed.

(** One character: what the encoder writes for [c], followed by [t], is read
    as [c] followed by what [t] is read as. *)
Lemma parse_escape_char (c : ascii) (t : string) :
  parse_string_body (json_escape_char c +:+ t) =
    match parse_string_body t with
    | Some (r, rest) => Some (String c r, rest)
    | None => None
    end.
Proof.
  destruct c as [[] [] [] [] [] [] [] []]; reflexivity.
Qed.

Lemma parse_escape (s rest : string) :
  parse_string_body (json_escape s +:+ String dquote rest) = Some (s, rest).
Proof.
  induction s as [|c s IH]; [reflexivity|].
  cbn [json_escape]. rewrite string_app_assoc, parse_escape_char. by rewrite IH.
Qed.

Lemma parse_string_quote (t : string) :
  parse_string (String dquote t) = parse_string_body t.
Proof. reflexivity. Qed.

Lemma parse_json_string (s rest : string) :
  parse_string (json_string s +:+ rest) = Some (s, rest).
Proof.
  unfold json_string. rewrite string_app_cons, parse_string_quote.
  rewrite string_app_assoc. apply parse_escape.
Qed.

Lemma expect_here (c : ascii) (rest : string) :
  is_ws c = false → expect c (String c rest) = Some rest.
Proof.
  intros Hc. unfold expect. cbn [skip_ws]. rewrite Hc. by rewrite decide_True.
Qed.

Lemma expect_other (c c' : ascii) (rest : string) :
  is_ws c' = false → c' ≠ c → expect c (String c' rest) = None.
Proof.
  intros Hc Hne. unfold expect. cbn [skip_ws]. rewrite Hc. by rewrite decide_False.
Qed.

(** ** Dictionaries have distinct keys *)

Lemma dict_setitem_keys (k v x : string) (d : PyDict) :
  x ∈ (dict_setitem k v d).*1 → x = k ∨ x ∈ d.*1.
Proof.
  induction d as [|[k' v'] d IH]; cbn.
  - intros Hx. apply list_elem_of_singleton in Hx. by left.
  - case_decide as Hk; cbn; [by right|].
    intros Hx. apply elem_of_cons in Hx as [->|Hx].
    + right. left.
    + destruct (IH Hx) as [->|Hin]; [by left|]. right. by right.
Qed.

Lemma dict_setitem_NoDup (k v : string) (d : PyDict) :
  NoDup d.*1 → NoDup (dict_setitem k v d).*1.
Proof.
  induction d as [|[k' v'] d IH]; cbn.
  - intros _. apply NoDup_singleton.
  - intros Hnd. apply NoDup_cons in Hnd as [Hk' Hnd].
    case_decide as Hk; cbn.
    + by apply NoDup_cons.
    + apply NoDup_cons. split; [|by apply IH].
      intros Hin. apply dict_setitem_keys in Hin as [->|Hin]; done.
Qed.

Lemma dict_display_NoDup (items : list (string * string)) :
  NoDup (dict_display items).*1.
Proof.
  unfold dict_display.
  assert (∀ acc : PyDict, NoDup acc.*1 →
            NoDup (fold_left (fun d kv => dict_setitem kv.1 kv.2 d) items acc).*1) as H.
  { induction items as [|kv items IH]; intros acc Hacc; [done|].
    cbn. apply IH. by apply dict_setitem_NoDup. }
  apply H. apply NoDup_nil_2.
Qed.

Lemma dict_setitem_new (k v : string) (d : PyDict) :
  k ∉ d.*1 → dict_setitem k v d = d ++ [(k, v)].
Proof.
  induction d as [|[k' v'] d IH]; [done|]. cbn.
  intros Hk. apply not_elem_of_cons in Hk as [Hne Hk].
  rewrite decide_False by done. by rewrite IH.
Qed.

Lemma json_items_cons (kv : string * string) (d : PyDict) :
  d ≠ [] → json_items (kv :: d) = json_item kv +:+ "," +:+ json_items d.
Proof. by destruct d. Qed.

Lemma parse_members_items (fuel : nat) (d acc : PyDict) (rest : string) :
  d ≠ [] → length d ≤ fuel → NoDup ((acc ++ d).*1) →
  parse_members fuel (json_items d +:+ String "}" rest) acc = Some (acc ++ d, rest).
Proof.
  revert fuel acc. induction d as [|[k v] d IH]; intros fuel acc Hne Hfuel Hnd; [done|].
  destruct fuel as [|fuel]; [cbn in Hfuel; lia|].
  assert (Hk : k ∉ acc.*1).
  { rewrite fmap_app in Hnd. apply NoDup_app in Hnd as (_ & Hdisj & _).
    intros Hin. apply (Hdisj k Hin). cbn. left. }
  destruct d as [|kv' d'].
  - cbn [json_items parse_members]. unfold json_item. cbn [fst snd].
    rewrite !string_app_assoc, parse_json_string. cbn [mbind option_bind].
    rewrite string_app_cons, expect_here by done. cbn [mbind option_bind].
    change (EmptyString +:+ ?t) with t.
    rewrite parse_json_string. cbn [mbind option_bind].
    rewrite expect_other by done. rewrite expect_here by done. cbn [mbind option_bind].
    by rewrite dict_setitem_new.
  - rewrite json_items_cons by done. cbn [parse_members]. unfold json_item at 1. cbn [fst snd].
    rewrite !string_app_assoc, parse_json_string. cbn [mbind option_bind].
    rewrite string_app_cons, expect_here by done. cbn [mbind option_bind].
    change (EmptyString +:+ ?t) with t.
    rewrite parse_json_string. cbn [mbind option_bind].
    rewrite string_app_cons, expect_here by done.
    change (EmptyString +:+ ?t) with t.
    rewrite dict_setitem_new by done.
    rewrite IH; [by rewrite <- app_assoc|done|cbn in *; lia|by rewrite <- app_assoc].
Qed.

Lemma json_items_length (d : PyDict) : length d ≤ String.length (json_items d).
Proof.
  induction d as [|kv d IH]; [done|]. destruct d as [|kv' d'].
  - cbn [json_items]. unfold json_item, json_string.
    rewrite !string_app_cons. cbn. lia.
  - rewrite json_items_cons by done. rewrite !string_length_app.
    unfold json_item at 1, json_string. rewrite !string_app_cons. cbn [String.length length] in *.
    lia.
Qed.

(** Every dictionary is read back from its rendering. *)
Lemma json_loads_dumps (d : PyDict) :
  NoDup d.*1 → json_loads (json_dumps d) = Some d.
Proof.
  intros Hnd. unfold json_loads, json_dumps.
  rewrite string_app_cons, expect_here by done. cbn [mbind option_bind].
  change (EmptyString +:+ ?t) with t.
  destruct d as [|[k v] d]; [reflexivity|].
  assert (∃ t, json_items ((k, v) :: d) +:+ "}" = String dquote t) as [t Ht].
  { destruct d; cbn [json_items]; unfold json_item, json_string; cbn [fst];
      rewrite !string_app_cons; eauto. }
  rewrite Ht at 1. rewrite expect_other by done.
  rewrite (parse_members_items _ ((k, v) :: d) [] EmptyString); [done..| |done].
  cbn [String.length]. rewrite string_length_app.
  pose proof (json_items_length ((k, v) :: d)). lia.
Qed.

(* ===================================================================== *)
(** * The handlers *)
(* ===================================================================== *)

Lemma call_spec (f : Function) (s : PyState) :
  call f s =
    (Returns (fresh (dom (heap s))),
     set_heap (<[fresh (dom (heap s)) := ObjDict (payload f)]> (heap s)) s).
Proof. by destruct f. Qed.

Lemma health_check_spec (s : PyState) :
  health_check s =
    (Returns (fresh (dom (heap s))),
     set_heap (<[fresh (dom (heap s)) := ObjDict health_payload]> (heap s)) s).
Proof. reflexivity. Qed.

Lemma read_root_spec (s : PyState) :
  read_root s =
    (Returns (fresh (dom (heap s))),
     set_heap (<[fresh (dom (heap s)) := ObjDict root_payload]> (heap s)) s).
Proof. reflexivity. Qed.

(* ===================================================================== *)
(** * The module body builds the registry *)
(* ===================================================================== *)

(** Running the module body: each statement returns; [py_step] runs the
    next one. *)
Ltac py_step :=
  erewrite bind_returns;
  [|first [ reflexivity
          | unfold FastAPI_get, add_api_route, mbind, Py_bind, bind; cbn -[fresh];
            rewrite lookup_insert_eq; reflexivity ]].

Lemma main_spec (s0 : PyState) :
  main (set_globals ∅ s0) = (Returns tt, module_state s0).
Proof.
  unfold main. destruct s0 as [env g h].
  do 9 py_step.
  unfold store_name, module_state, module_globals. cbn -[fresh].
  by rewrite !insert_insert_eq.
Qed.

Lemma startup_spec (s0 : PyState) :
  startup s0 = Some (fresh (dom (heap s0)), module_state s0).
Proof.
  unfold startup. rewrite main_spec. unfold module_state, module_globals; cbn -[fresh].
  rewrite !lookup_insert_ne by done. by rewrite lookup_insert_eq.
Qed.

(* ===================================================================== *)
(** * Serving requests one after the other *)
(* ===================================================================== *)

Lemma module_state_loaded (s0 : PyState) :
  loaded (fresh (dom (heap s0))) (module_state s0).
Proof. unfold loaded, module_state; cbn -[fresh]. apply lookup_insert_eq. Qed.

Section ServerFacts.

Variable fw : Framework.

Lemma handle_request_loaded (l : loc) (req : Request) (s : PyState) :
  loaded l s ->
  handle_request fw l req s = (Returns (answer fw req), s).
Proof.
  intros Hl. unfold handle_request, answer.
  erewrite bind_returns; [|unfold load_app; by rewrite Hl].
  destruct (find_route (routes app) req) as [r|]; [|done].
  erewrite bind_returns by apply call_spec.
  erewrite bind_returns;
    [|unfold load_dict; cbn -[fresh]; by rewrite lookup_insert_eq].
  erewrite bind_returns by reflexivity.
  unfold mret, Py_ret, ret. cbn -[fresh].
  by rewrite set_heap_set_heap, alloc_decref.
Qed.

Lemma serve_one_loaded (l : loc) (req : Request) (s : PyState) :
  loaded l s -> serve_one fw l req s = (answer fw req, s).
Proof. intros Hl. unfold serve_one. by rewrite handle_request_loaded. Qed.

Lemma serve_loaded (l : loc) (reqs : list Request) (s : PyState) :
  loaded l s -> serve fw l reqs s = (answer fw <$> reqs, s).
Proof.
  intros Hl. induction reqs as [|req reqs IH]; [done|].
  cbn. rewrite serve_one_loaded by done. by rewrite IH.
Qed.

Lemma run_spec (s0 : PyState) (reqs : list Request) :
  run fw s0 reqs = Some (answer fw <$> reqs).
Proof.
  unfold run. rewrite startup_spec. cbn -[fresh].
  by rewrite serve_loaded by apply module_state_loaded.
Qed.

Lemma state_after_spec (s0 : PyState) (reqs : list Request) :
  state_after fw s0 reqs = Some (fresh (dom (heap s0)), module_state s0).
Proof.
  unfold state_after. rewrite startup_spec. cbn -[fresh].
  by rewrite serve_loaded by apply module_state_loaded.
Qed.

Lemma respond_spec (s0 : PyState) (history : list Request) (req : Request) :
  respond fw s0 history req = Some (answer fw req).
Proof.
  unfold respond. rewrite state_after_spec. cbn -[fresh].
  by rewrite serve_one_loaded by apply module_state_loaded.
Qed.

Lemma answer_health query headers data :
  answer fw (GET "/health" query headers data) = health_response.
Proof. reflexivity. Qed.

Lemma answer_root query headers data :
  answer fw (GET "/" query headers data) = root_response.
Proof. reflexivity. Qed.

(* ===================================================================== *)
(** * Requests in flight: one step at a time *)
(* ===================================================================== *)

Lemma step_received (l : loc) (req : Request) (s : PyState) :
  loaded l s ->
  step_task fw l (Received req) s =
    (match find_route (routes app) req with
     | Some r => Routed r
     | None => Sent (framework_default fw req)
     end, s).
Proof.
  intros Hl. unfold step_task, task_step.
  erewrite bind_returns; [|unfold load_app; by rewrite Hl].
  by destruct (find_route (routes app) req).
Qed.

Lemma step_routed (l : loc) (r : APIRoute) (s : PyState) :
  step_task fw l (Routed r) s =
    (Returned r (fresh (dom (heap s))),
     set_heap (<[fresh (dom (heap s)) := ObjDict (payload (route_endpoint r))]> (heap s)) s).
Proof.
  unfold step_task, task_step. by erewrite bind_returns by apply call_spec.
Qed.

Lemma step_returned (l : loc) (r : APIRoute) (o : loc) (d : PyDict) (s : PyState) :
  heap s !! o = Some (ObjDict d) ->
  step_task fw l (Returned r o) s =
    (Rendered (JSONResponse d (route_status_code r)) o, s).
Proof.
  intros Ho. unfold step_task, task_step.
  by erewrite bind_returns; [|unfold load_dict; by rewrite Ho].
Qed.

Lemma step_rendered (l : loc) (resp : Response) (o : loc) (s : PyState) :
  step_task fw l (Rendered resp o) s =
    (Sent resp, set_heap (delete o (heap s)) s).
Proof. reflexivity. Qed.

Lemma step_sent (l : loc) (resp : Response) (s : PyState) :
  step_task fw l (Sent resp) s = (Sent resp, s).
Proof. reflexivity. Qed.

(** One request alone goes through its four steps and gives what
    [serve_one] gives. *)
Lemma steps_task_serve_one (l : loc) (req : Request) (s : PyState) :
  loaded l s ->
  steps_task fw 4 l (Received req) s =
    (Sent (serve_one fw l req s).1,
     (serve_one fw l req s).2).
Proof.
  intros Hl. rewrite serve_one_loaded by done. unfold answer, steps_task.
  rewrite step_received by done.
  destruct (find_route (routes app) req) as [r|]; [|reflexivity].
  rewrite step_routed.
  erewrite step_returned by (cbn -[fresh]; apply lookup_insert_eq).
  rewrite step_rendered. cbn -[fresh].
  by rewrite set_heap_set_heap, alloc_decref.
Qed.

(** ** Progress: a step never waits and never loops *)

Lemma step_task_progress (l : loc) (t : Task) (s : PyState) :
  remaining (step_task fw l t s).1 ≤ pred (remaining t).
Proof.
  destruct t as [req|r|r o|resp o|resp].
  - unfold step_task, task_step, mbind, Py_bind, bind, load_app.
    destruct (heap s !! l) as [[d|a]|]; cbn; try lia.
    destruct (find_route (routes a) req); cbn; lia.
  - rewrite step_routed. cbn. lia.
  - unfold step_task, task_step, mbind, Py_bind, bind, load_dict.
    destruct (heap s !! o) as [[d|a]|]; cbn; lia.
  - rewrite step_rendered. cbn. lia.
  - rewrite step_sent. cbn. lia.
Qed.

Lemma remaining_0 (t : Task) : remaining t = 0 -> ∃ resp, t = Sent resp.
Proof. destruct t; try done. eauto. Qed.

Lemma steps_task_sent (n : nat) (l : loc) (t : Task) (s : PyState) :
  remaining t ≤ n -> ∃ resp, (steps_task fw n l t s).1 = Sent resp.
Proof.
  revert t s. induction n as [|n IH]; intros t s Hn.
  - apply remaining_0. cbn. lia.
  - cbn -[step_task].
    pose proof (step_task_progress l t s) as Hp.
    destruct (step_task fw l t s) as [t' s'].
    apply IH. cbn in Hp. lia.
Qed.

(** ** The invariant of the requests in flight *)

Lemma owns_insert (pool : list Task) (i : nat) (t t' : Task) (x : loc) :
  pool !! i = Some t →
  owns (<[i := t']> pool) x ↔
    task_obj t' = Some x ∨ ∃ j tj, j ≠ i ∧ pool !! j = Some tj ∧ task_obj tj = Some x.
Proof.
  intros Hi. pose proof (lookup_lt_Some _ _ _ Hi) as Hlt. split.
  - intros (j & tj & Hj & Ho). destruct (decide (j = i)) as [->|Hne].
    + rewrite list_lookup_insert_eq in Hj by done. left. congruence.
    + rewrite list_lookup_insert_ne in Hj by done. right. eauto.
  - intros [Ho|(j & tj & Hne & Hj & Ho)].
    + exists i, t'. by rewrite list_lookup_insert_eq.
    + exists j, tj. by rewrite list_lookup_insert_ne.
Qed.

Lemma owns_insert_same (pool : list Task) (i : nat) (t t' : Task) (x : loc) :
  pool !! i = Some t → task_obj t' = task_obj t →
  owns (<[i := t']> pool) x ↔ owns pool x.
Proof.
  intros Hi Heq. rewrite owns_insert by done. rewrite Heq. split.
  - intros [Ho|(j & tj & _ & Hj & Ho)]; [exists i, t|exists j, tj]; done.
  - intros (j & tj & Hj & Ho). destruct (decide (j = i)) as [->|Hne].
    + left. congruence.
    + right. eauto.
Qed.

Lemma owns_live (base : PyState) (reqs : list Request) (c : list Task * PyState) (o : loc) :
  pool_inv fw base reqs c → owns c.1 o → is_Some (heap c.2 !! o).
Proof.
  intros Hinv (i & t & Hi & Ho).
  destruct (lookup_lt_is_Some_2 reqs i) as [req Hreq].
  { rewrite <- (inv_length _ _ _ _ Hinv). by eapply lookup_lt_Some. }
  pose proof (inv_tasks _ _ _ _ Hinv i req t Hreq Hi) as Hok.
  destruct t; simplify_eq/=; destruct Hok as [_ Hok]; [by rewrite Hok|done].
Qed.

Lemma pool_inv_loaded (l : loc) (base : PyState) (reqs : list Request)
    (c : list Task * PyState) :
  loaded l base → pool_inv fw base reqs c → loaded l c.2.
Proof.
  intros Hl Hinv. unfold loaded. rewrite (inv_frame _ _ _ _ Hinv); [done|].
  intros Ho. apply (inv_new _ _ _ _ Hinv) in Ho. unfold loaded in Hl. congruence.
Qed.

(** At arrival nothing has moved. *)
Lemma pool_inv_init (base : PyState) (reqs : list Request) :
  pool_inv fw base reqs (Received <$> reqs, base).
Proof.
  split; cbn; try done.
  - by rewrite length_fmap.
  - intros i req t Hreq Ht. rewrite list_lookup_fmap, Hreq in Ht. by simplify_eq/=.
  - intros i j ti tj o Hi _ Ho _. rewrite list_lookup_fmap in Hi.
    destruct (reqs !! i); by simplify_eq/=.
  - intros o (i & t & Hi & Ho). rewrite list_lookup_fmap in Hi.
    destruct (reqs !! i); by simplify_eq/=.
Qed.

(** A step that keeps the state and the object the task holds. *)
Lemma pool_inv_step_pure base reqs pool s i t t' :
  pool_inv fw base reqs (pool, s) →
  pool !! i = Some t →
  task_obj t' = task_obj t →
  (∀ req, reqs !! i = Some req → task_ok fw req t s → task_ok fw req t' s) →
  pool_inv fw base reqs (<[i := t']> pool, s).
Proof.
  intros Hinv Hi Hobj Hok. pose proof (lookup_lt_Some _ _ _ Hi) as Hlt.
  destruct Hinv as [Henv Hglob Hlen Htasks Hexcl Hnew Hframe]; cbn in *.
  split; cbn.
  - done.
  - done.
  - by rewrite length_insert.
  - intros j req tj Hreq Hj. destruct (decide (j = i)) as [->|Hne].
    + rewrite list_lookup_insert_eq in Hj by done. simplify_eq. eauto.
    + rewrite list_lookup_insert_ne in Hj by done. eauto.
  - intros j k tj tk o Hj Hk Hoj Hok'.
    destruct (decide (j = i)) as [->|Hnj]; destruct (decide (k = i)) as [->|Hnk]; [done| | |].
    + rewrite list_lookup_insert_eq in Hj by done.
      rewrite list_lookup_insert_ne in Hk by done. simplify_eq.
      rewrite Hobj in Hoj. eauto.
    + rewrite list_lookup_insert_ne in Hj by done.
      rewrite list_lookup_insert_eq in Hk by done. simplify_eq.
      rewrite Hobj in Hok'. eauto.
    + rewrite list_lookup_insert_ne in Hj, Hk by done. eauto.
  - intros o Ho. apply Hnew. by eapply owns_insert_same.
  - intros x Hx. apply Hframe. intros Ho. apply Hx. by eapply owns_insert_same.
Qed.

(** Whether a task is where it may be depends on the state only through
    the object the task holds. *)
Lemma task_ok_heap (req : Request) (t : Task) (s s' : PyState) :
  (∀ o, task_obj t = Some o → heap s' !! o = heap s !! o) →
  task_ok fw req t s → task_ok fw req t s'.
Proof.
  intros Hsame. destruct t as [req'|r|r o|resp o|resp]; cbn; try done.
  - intros [? Ho]. by rewrite Hsame.
  - intros [? Ho]. by rewrite Hsame.
Qed.

(** A step that allocates the object the task then holds. *)
Lemma pool_inv_step_alloc base reqs pool s i t t' v :
  let o := fresh (dom (heap s)) in
  let s' := set_heap (<[o := v]> (heap s)) s in
  pool_inv fw base reqs (pool, s) →
  pool !! i = Some t →
  task_obj t = None →
  task_obj t' = Some o →
  (∀ req, reqs !! i = Some req → task_ok fw req t s → task_ok fw req t' s') →
  pool_inv fw base reqs (<[i := t']> pool, s').
Proof.
  intros o s' Hinv Hi Hnone Hobj Hok.
  pose proof (lookup_lt_Some _ _ _ Hi) as Hlt.
  assert (Hfresh : heap s !! o = None) by apply fresh_not_live.
  assert (Hnot : ¬ owns pool o).
  { intros Ho. apply (owns_live _ _ _ _ Hinv) in Ho. cbn in Ho.
    rewrite Hfresh in Ho. by destruct Ho. }
  assert (Hother : ∀ j tj x, pool !! j = Some tj → task_obj tj = Some x → x ≠ o).
  { intros j tj x Hj Hx ->. apply Hnot. by exists j, tj. }
  pose proof Hinv as [Henv Hglob Hlen Htasks Hexcl Hnew Hframe]; cbn in *.
  split; cbn -[fresh].
  - done.
  - done.
  - by rewrite length_insert.
  - intros j req tj Hreq Hj. destruct (decide (j = i)) as [->|Hne].
    + rewrite list_lookup_insert_eq in Hj by done. simplify_eq. eauto.
    + rewrite list_lookup_insert_ne in Hj by done.
      eapply task_ok_heap; [|by eauto]. intros x Hx. cbn -[fresh].
      apply lookup_insert_ne. intros <-. by eapply Hother.
  - intros j k tj tk x Hj Hk Hoj Hok'.
    destruct (decide (j = i)) as [->|Hnj]; destruct (decide (k = i)) as [->|Hnk]; [done| | |].
    + rewrite list_lookup_insert_eq in Hj by done.
      rewrite list_lookup_insert_ne in Hk by done. simplify_eq.
      exfalso. eapply Hother; [done..|]. congruence.
    + rewrite list_lookup_insert_ne in Hj by done.
      rewrite list_lookup_insert_eq in Hk by done. simplify_eq.
      exfalso. eapply Hother; [done..|]. congruence.
    + rewrite list_lookup_insert_ne in Hj, Hk by done. eauto.
  - intros x Hx. apply (owns_insert _ _ _ _ _ Hi) in Hx.
    destruct Hx as [Hx|(j & tj & _ & Hj & Hx)].
    + assert (x = o) as -> by congruence.
      rewrite <- Hframe by done. done.
    + apply Hnew. by exists j, tj.
  - intros x Hx. assert (x ≠ o) as Hne.
    { intros ->. apply Hx. apply (owns_insert _ _ _ _ _ Hi). by left. }
    rewrite lookup_insert_ne by done. apply Hframe.
    intros (j & tj & Hj & Ho). apply Hx. apply (owns_insert _ _ _ _ _ Hi).
    destruct (decide (j = i)) as [->|Hnj]; [congruence|]. right. eauto.
Qed.

(** A step that drops the object the task holds. *)
Lemma pool_inv_step_free base reqs pool s i t t' o :
  let s' := set_heap (delete o (heap s)) s in
  pool_inv fw base reqs (pool, s) →
  pool !! i = Some t →
  task_obj t = Some o →
  task_obj t' = None →
  (∀ req, reqs !! i = Some req → task_ok fw req t s → task_ok fw req t' s') →
  pool_inv fw base reqs (<[i := t']> pool, s').
Proof.
  intros s' Hinv Hi Hobj Hnone Hok.
  pose proof (lookup_lt_Some _ _ _ Hi) as Hlt.
  pose proof Hinv as [Henv Hglob Hlen Htasks Hexcl Hnew Hframe]; cbn in *.
  assert (Hother : ∀ j tj x, j ≠ i → pool !! j = Some tj → task_obj tj = Some x → x ≠ o).
  { intros j tj x Hne Hj Hx ->. apply Hne. eauto. }
  split; cbn.
  - done.
  - done.
  - by rewrite length_insert.
  - intros j req tj Hreq Hj. destruct (decide (j = i)) as [->|Hne].
    + rewrite list_lookup_insert_eq in Hj by done. simplify_eq. eauto.
    + rewrite list_lookup_insert_ne in Hj by done.
      eapply task_ok_heap; [|by eauto]. intros x Hx. cbn.
      apply lookup_delete_ne. intros <-. by eapply Hother.
  - intros j k tj tk x Hj Hk Hoj Hok'.
    destruct (decide (j = i)) as [->|Hnj]; destruct (decide (k = i)) as [->|Hnk]; [done| | |].
    + rewrite list_lookup_insert_eq in Hj by done. simplify_eq; congruence.
    + rewrite list_lookup_insert_eq in Hk by done. simplify_eq; congruence.
    + rewrite list_lookup_insert_ne in Hj, Hk by done. eauto.
  - intros x Hx. apply (owns_insert _ _ _ _ _ Hi) in Hx.
    destruct Hx as [Hx|(j & tj & _ & Hj & Hx)]; [congruence|].
    apply Hnew. by exists j, tj.
  - intros x Hx. destruct (decide (x = o)) as [->|Hne].
    + rewrite lookup_delete_eq. symmetry. apply Hnew. by exists i, t.
    + rewrite lookup_delete_ne by done. apply Hframe.
      intros (j & tj & Hj & Ho). apply Hx. apply (owns_insert _ _ _ _ _ Hi).
      destruct (decide (j = i)) as [->|Hnj]; [congruence|]. right. eauto.
Qed.

(** Every step of every task keeps the invariant, whichever task the
    scheduler picks. *)
Lemma pool_step_inv (l : loc) (base : PyState) (reqs : list Request)
    (c : list Task * PyState) (i : nat) :
  loaded l base → pool_inv fw base reqs c →
  pool_inv fw base reqs (pool_step fw l c i).
Proof.
  intros Hl Hinv. pose proof (pool_inv_loaded l _ _ _ Hl Hinv) as Hls.
  destruct c as [pool s]. unfold pool_step. cbn -[step_task] in *.
  destruct (pool !! i) as [t|] eqn:Hi; [|done].
  destruct (lookup_lt_is_Some_2 reqs i) as [req Hreq].
  { rewrite <- (inv_length _ _ _ _ Hinv). by eapply lookup_lt_Some. }
  pose proof (inv_tasks _ _ _ _ Hinv i req t Hreq Hi) as Hok.
  destruct t as [req'|r|r o|resp o|resp]; cbn in Hok.
  - rewrite step_received by done. subst req'.
    eapply pool_inv_step_pure; [done..| |].
    + by destruct (find_route (routes app) req).
    + intros req' Hreq' _. simplify_eq.
      destruct (find_route (routes app) req) eqn:Hr; cbn; [done|].
      unfold answer. by rewrite Hr.
  - rewrite step_routed. eapply pool_inv_step_alloc; [done..|].
    intros req' Hreq' Hok'. simplify_eq. cbn -[fresh]. split; [done|].
    apply lookup_insert_eq.
  - destruct Hok as [Hr Ho]. erewrite step_returned by done.
    eapply pool_inv_step_pure; [done..|].
    intros req' Hreq' _. simplify_eq. cbn. unfold answer. rewrite Hr.
    split; [done|]. by rewrite Ho.
  - rewrite step_rendered. eapply pool_inv_step_free; [done..|].
    intros req' Hreq' [Hresp _]. by simplify_eq.
  - rewrite step_sent. by eapply pool_inv_step_pure.
Qed.

Lemma run_schedule_inv (l : loc) (base : PyState) (reqs : list Request)
    (sched : list nat) (c : list Task * PyState) :
  loaded l base → pool_inv fw base reqs c →
  pool_inv fw base reqs (run_schedule fw l sched c).
Proof.
  intros Hl. revert c. induction sched as [|i sched IH]; intros c Hinv; [done|].
  cbn. apply IH. by apply pool_step_inv.
Qed.

(** When no task holds an object any more, the state is the one the
    requests found. *)
Lemma pool_inv_quiescent (base : PyState) (reqs : list Request)
    (pool : list Task) (s : PyState) :
  pool_inv fw base reqs (pool, s) →
  (∀ i t, pool !! i = Some t → task_obj t = None) →
  s = base.
Proof.
  intros [Henv Hglob _ _ _ _ Hframe] Hnone; cbn in *.
  destruct s as [e g h], base as [e0 g0 h0]; cbn in *. f_equal; [done..|].
  apply map_eq. intros x. apply Hframe.
  intros (i & t & Hi & Ho). apply Hnone in Hi. congruence.
Qed.

(** ** Progress of the tasks under a schedule *)

Lemma pool_step_left (l : loc) (c : list Task * PyState) (i j : nat) :
  left_of (pool_step fw l c i).1 j
  ≤ left_of c.1 j - (if decide (i = j) then 1 else 0).
Proof.
  destruct c as [pool s]. unfold pool_step, left_of. cbn -[step_task].
  destruct (pool !! i) as [t|] eqn:Hi.
  - pose proof (lookup_lt_Some _ _ _ Hi) as Hlt.
    pose proof (step_task_progress l t s) as Hp.
    destruct (step_task fw l t s) as [t' s']. cbn in *.
    case_decide as Hij.
    + subst j. rewrite list_lookup_insert_eq by done. rewrite Hi. cbn. lia.
    + rewrite list_lookup_insert_ne by done. lia.
  - cbn. case_decide as Hij; [|lia]. subst j. rewrite Hi. cbn. lia.
Qed.

Lemma run_schedule_left (l : loc) (sched : list nat) (c : list Task * PyState) (j : nat) :
  left_of (run_schedule fw l sched c).1 j
  ≤ left_of c.1 j - count_occ Nat.eq_dec sched j.
Proof.
  revert c. induction sched as [|i sched IH]; intros c; [cbn; lia|].
  cbn -[pool_step]. specialize (IH (pool_step fw l c i)).
  pose proof (pool_step_left l c i j) as Hstep.
  unfold run_schedule in IH.
  destruct (Nat.eq_dec i j) as [->|Hne].
  - rewrite decide_True in Hstep by done. lia.
  - rewrite decide_False in Hstep by done. lia.
Qed.

(** The requests in flight, whatever the schedule: a response that has
    been sent is the answer fw the request gets when served alone, and a task
    that was picked four times has sent it. *)
Lemma run_schedule_answer (l : loc) (base : PyState) (reqs : list Request)
    (sched : list nat) (i : nat) (req : Request) :
  loaded l base → reqs !! i = Some req →
  let c := run_schedule fw l sched (Received <$> reqs, base) in
  (∀ resp, c.1 !! i = Some (Sent resp) → resp = answer fw req)
  ∧ (4 ≤ count_occ Nat.eq_dec sched i → c.1 !! i = Some (Sent (answer fw req))).
Proof.
  intros Hl Hreq c.
  pose proof (run_schedule_inv l base reqs sched _ Hl (pool_inv_init base reqs)) as Hinv.
  fold c in Hinv.
  assert (Hsent : ∀ resp, c.1 !! i = Some (Sent resp) → resp = answer fw req).
  { intros resp Hi. apply (inv_tasks _ _ _ _ Hinv i req _ Hreq Hi). }
  split; [done|]. intros Hcount.
  pose proof (run_schedule_left l sched (Received <$> reqs, base) i) as Hleft.
  fold c in Hleft. unfold left_of in Hleft. cbn in Hleft.
  destruct (lookup_lt_is_Some_2 c.1 i) as [t Ht].
  { rewrite (inv_length _ _ _ _ Hinv). by eapply lookup_lt_Some. }
  rewrite Ht in Hleft. cbn in Hleft.
  rewrite list_lookup_fmap, Hreq in Hleft. cbn in Hleft.
  destruct (remaining_0 t) as [resp ->]; [lia|].
  by rewrite (Hsent resp Ht) in Ht.
Qed.

(** ** The contract table *)

Lemma answer_contract (req : Request) (resp : Response) :
  contract req = Some resp → answer fw req = resp.
Proof.
  destruct req as [m p q h b]. unfold contract, answer. cbn.
  repeat case_decide; try done; subst; intros [= <-]; reflexivity.
Qed.

Lemma contract_health query headers data :
  contract (GET "/health" query headers data) = Some health_response.
Proof. reflexivity. Qed.

Lemma contract_root query headers data :
  contract (GET "/" query headers data) = Some root_response.
Proof. reflexivity. Qed.

Lemma json_loads_health :
  json_loads health_body = Some health_payload
  ∧ json_loads health_body_spaced = Some health_payload.
Proof. split; vm_compute; reflexivity. Qed.

Lemma json_loads_root :
  json_loads root_body = Some root_payload
  ∧ json_loads root_body_spaced = Some root_payload.
Proof. split; vm_compute; reflexivity. Qed.

Lemma json_dumps_health : json_dumps health_payload = health_body.
Proof. reflexivity. Qed.

Lemma json_dumps_root : json_dumps root_payload = root_body.
Proof. reflexivity. Qed.

(** ** The handlers keep to themselves *)

Lemma call_ignores_globals (f : Function) : ignores_globals (call f).
Proof. intros g s. by rewrite !call_spec. Qed.

Lemma call_returns_fresh (f : Function) : returns_fresh (call f) (payload f).
Proof.
  intros s. exists (fresh (dom (heap s))). rewrite call_spec. cbn -[fresh].
  split; [done|]. split; [apply fresh_not_live|apply lookup_insert_eq].
Qed.

Lemma call_state_independent (f : Function) : state_independent (call f).
Proof.
  intros s1 s2. rewrite !call_spec. do 3 eexists. cbn -[fresh].
  split; [done|]. split; [done|]. split; apply lookup_insert_eq.
Qed.

Lemma call_preserves_state (f : Function) : preserves_state (call f).
Proof.
  intros s. rewrite call_spec. cbn -[fresh]. split; [done|]. split; [done|].
  intros x [v Hx]. apply lookup_insert_ne. intros <-.
  by rewrite fresh_not_live in Hx.
Qed.

Lemma call_calls_independent (f : Function) : calls_independent (call f) (payload f).
Proof.
  intros s v. rewrite call_spec. do 4 eexists. split; [done|].
  rewrite call_spec. split; [done|]. cbn -[fresh].
  rewrite insert_insert_eq.
  set (o1 := fresh (dom (heap s))).
  set (o2 := fresh (dom (<[o1 := v]> (heap s)))).
  assert (o1 ≠ o2) as Hne.
  { intros Heq. pose proof (is_fresh (dom (<[o1 := v]> (heap s)))) as Hf.
    fold o2 in Hf. rewrite <- Heq in Hf. apply Hf.
    apply elem_of_dom. rewrite lookup_insert_eq. eauto. }
  split; [done|]. split.
  - rewrite lookup_insert_ne by done. apply lookup_insert_eq.
  - apply lookup_insert_eq.
Qed.

End ServerFacts.

(** ** The scenarios of section 8 of the spec *)

(** Scenario 1: [GET /health] with no headers. *)
Example scenario_health :
  run plain_framework s_init [GET "/health" [] [] ""]
    = Some [mkResponse 200 "application/json" health_body].
Proof. vm_compute. reflexivity. Qed.

(** Scenario 2: [GET /health?foo=bar] gets the body of scenario 1. *)
Example scenario_health_query :
  run plain_framework s_init [GET "/health" [] [] ""; GET "/health" [("foo", "bar")] [] ""]
    = Some [mkResponse 200 "application/json" health_body;
            mkResponse 200 "application/json" health_body].
Proof. vm_compute. reflexivity. Qed.

(** Scenario 3: [GET /]. *)
Example scenario_root :
  run plain_framework s_init [GET "/" [] [] ""]
    = Some [mkResponse 200 "application/json" root_body].
Proof. vm_compute. reflexivity. Qed.

(** Scenario 4: [POST /health] matches no route of the module and is left
    to the framework. *)
Example scenario_post_health :
  run plain_framework s_init [mkRequest "POST" "/health" [] [] ""]
    = Some [not_found (mkRequest "POST" "/health" [] [] "")].
Proof. vm_compute. reflexivity. Qed.

(** Three requests in flight together, their steps interleaved. *)
Example scenario_interleaved :
  run_concurrent plain_framework s_init
    [GET "/health" [] [] ""; GET "/" [] [] ""; GET "/health" [("foo", "bar")] [] ""]
    [0; 1; 2; 2; 1; 0; 0; 2; 1; 1; 2; 0]
  = Some ([Sent health_response; Sent root_response; Sent health_response],
          module_state s_init).
Proof. vm_compute. reflexivity. Qed.

(* ===================================================================== *)
(** * The properties of the two endpoints *)
(* ===================================================================== *)

(** C1.  Every [GET /health], whatever query, headers and body come with it,
    whatever the process was started in and has served before, is answered
    with status 200 and the JSON body [{"status":"ok","service":"science-worker"}].
    That body, like the spaced one of the spec, decodes to the mapping with
    exactly the keys [status] and [service], bound to ["ok"] and
    ["science-worker"]; it is the dictionary [health_check] returns in every
    state. *)
Theorem health_endpoint_contract (fw : Framework) (s0 : PyState) (history : list Request)
    (query headers : list (string * string)) (data : string) :
  respond fw s0 history (GET "/health" query headers data)
    = Some (mkResponse 200 "application/json" health_body)
  ∧ json_loads health_body = Some [("status", "ok"); ("service", "science-worker")]
  ∧ json_loads health_body_spaced = json_loads health_body
  ∧ dict_map [("status", "ok"); ("service", "science-worker")]
      = <["status" := "ok"]> (<["service" := "science-worker"]> ∅)
  ∧ returns_fresh health_check [("status", "ok"); ("service", "science-worker")].
Proof.
  split; [|split; [|split; [|split]]].
  - by rewrite respond_spec, answer_health.
  - apply json_loads_health.
  - destruct json_loads_health as [-> ->]. done.
  - vm_compute. reflexivity.
  - apply (call_returns_fresh fn_health_check).
Qed.

(** C2.  Every [GET /], whatever comes with it, is answered with status 200
    and the JSON body [{"message":"Zone14 Science Worker"}], which decodes to
    the mapping with the one key [message] bound to that string; it is the
    dictionary [read_root] returns in every state. *)
Theorem root_endpoint_contract (fw : Framework) (s0 : PyState) (history : list Request)
    (query headers : list (string * string)) (data : string) :
  respond fw s0 history (GET "/" query headers data)
    = Some (mkResponse 200 "application/json" root_body)
  ∧ json_loads root_body = Some [("message", "Zone14 Science Worker")]
  ∧ json_loads root_body_spaced = json_loads root_body
  ∧ dict_map [("message", "Zone14 Science Worker")]
      = {["message" := "Zone14 Science Worker"]}
  ∧ returns_fresh read_root [("message", "Zone14 Science Worker")].
Proof.
  split; [|split; [|split; [|split]]].
  - by rewrite respond_spec, answer_root.
  - apply json_loads_root.
  - destruct json_loads_root as [-> ->]. done.
  - vm_compute. reflexivity.
  - apply (call_returns_fresh fn_read_root).
Qed.

(** C3.  Two runs of the same endpoint give the same response: the two
    processes may have been started in different states (environment
    included), may have served different requests before, may sit on
    frameworks with different defaults, and the two requests may differ in
    query, headers and body.  The handlers themselves return the same
    dictionary in any two states. *)
Theorem endpoints_deterministic (fw fw' : Framework)
    (s1 s2 : PyState) (history1 history2 : list Request)
    (query1 headers1 query2 headers2 : list (string * string))
    (data1 data2 : string) :
  (respond fw s1 history1 (GET "/health" query1 headers1 data1)
     = respond fw' s2 history2 (GET "/health" query2 headers2 data2)
   ∧ is_Some (respond fw s1 history1 (GET "/health" query1 headers1 data1)))
  ∧ (respond fw s1 history1 (GET "/" query1 headers1 data1)
       = respond fw' s2 history2 (GET "/" query2 headers2 data2)
     ∧ is_Some (respond fw s1 history1 (GET "/" query1 headers1 data1)))
  ∧ state_independent health_check
  ∧ state_independent read_root.
Proof.
  rewrite !respond_spec, !answer_health, !answer_root.
  split; [by eauto|]. split; [by eauto|].
  split; [apply (call_state_independent fn_health_check)
         |apply (call_state_independent fn_read_root)].
Qed.

(** C4.  A request to either endpoint repeated [N] times, at any point of
    the life of the process, gets [N] responses, all the same one. *)
Theorem repeated_requests_identical (fw : Framework) (s0 : PyState)
    (history : list Request) (N : nat)
    (query headers : list (string * string)) (data : string) :
  (∃ earlier,
     run fw s0 (history ++ replicate N (GET "/health" query headers data))
       = Some (earlier ++ replicate N health_response)
     ∧ length earlier = length history)
  ∧ (∃ earlier,
       run fw s0 (history ++ replicate N (GET "/" query headers data))
         = Some (earlier ++ replicate N root_response)
       ∧ length earlier = length history).
Proof.
  rewrite !run_spec, !fmap_app, !fmap_replicate, answer_health, answer_root.
  split; exists (answer fw <$> history); by rewrite length_fmap.
Qed.

(** C5.  Neither operation fails.  The handlers return in every state and
    never raise; for every request to either endpoint, at any point of the
    life of the process, handling it returns a response, of status 200, and
    that response is what the client gets: the framework's answer to a
    failure, whatever it is, is not used. *)
Theorem endpoints_never_fail (fw : Framework) (s0 : PyState) (history : list Request)
    (query headers : list (string * string)) (data : string) :
  (∀ s e, (health_check s).1 ≠ Raises e)
  ∧ (∀ s e, (read_root s).1 ≠ Raises e)
  ∧ ∃ l s, state_after fw s0 history = Some (l, s)
      ∧ (∃ resp,
           handle_request fw l (GET "/health" query headers data) s = (Returns resp, s)
           ∧ status resp = 200
           ∧ serve_one fw l (GET "/health" query headers data) s = (resp, s))
      ∧ (∃ resp,
           handle_request fw l (GET "/" query headers data) s = (Returns resp, s)
           ∧ status resp = 200
           ∧ serve_one fw l (GET "/" query headers data) s = (resp, s)).
Proof.
  split; [by intros s e; rewrite health_check_spec|].
  split; [by intros s e; rewrite read_root_spec|].
  rewrite state_after_spec. do 2 eexists. split; [done|].
  pose proof (module_state_loaded s0) as Hl.
  split; eexists; rewrite handle_request_loaded, serve_one_loaded by done;
    (split; [done|]); rewrite ?answer_health, ?answer_root; done.
Qed.

(** C6.  Handling a request to either endpoint leaves the whole state of a
    running process (environment, namespace, every object) exactly as it
    was; and the handlers themselves change nothing that exists, in any
    state. *)
Theorem endpoints_leave_state_unchanged (fw : Framework)
    (l : loc) (s : PyState) (query headers : list (string * string)) (data : string) :
  loaded l s →
  (serve_one fw l (GET "/health" query headers data) s).2 = s
  ∧ (serve_one fw l (GET "/" query headers data) s).2 = s
  ∧ preserves_state health_check
  ∧ preserves_state read_root.
Proof.
  intros Hl. rewrite !serve_one_loaded by done. split; [done|]. split; [done|].
  split; [apply (call_preserves_state fn_health_check)
         |apply (call_preserves_state fn_read_root)].
Qed.

Lemma endpoints_leave_state_unchanged_witness :
  loaded 1%positive (module_state s_init)
  ∧ ((serve_one plain_framework 1%positive (GET "/health" [("foo", "bar")] [] "x")
        (module_state s_init)).2 = module_state s_init
     ∧ (serve_one plain_framework 1%positive (GET "/" [("foo", "bar")] [] "x")
          (module_state s_init)).2 = module_state s_init
     ∧ preserves_state health_check
     ∧ preserves_state read_root).
Proof.
  split; [reflexivity|].
  apply (endpoints_leave_state_unchanged plain_framework 1%positive (module_state s_init)).
  reflexivity.
Defined.

(** C7.  The response of either endpoint is served with
    [Content-Type: application/json], and its body is JSON: it is the
    rendering of the string-to-string dictionary the handler returned, and it
    decodes to that dictionary.  So it is for every dictionary a handler
    could build: the response made of it has that content type and a body
    that decodes to it. *)
Theorem responses_are_json (fw : Framework)
    (s0 : PyState) (history : list Request)
    (query headers : list (string * string)) (data : string) :
  (∃ resp,
     respond fw s0 history (GET "/health" query headers data) = Some resp
     ∧ content_type resp = "application/json"
     ∧ body resp = json_dumps health_payload
     ∧ json_loads (body resp) = Some health_payload)
  ∧ (∃ resp,
       respond fw s0 history (GET "/" query headers data) = Some resp
       ∧ content_type resp = "application/json"
       ∧ body resp = json_dumps root_payload
       ∧ json_loads (body resp) = Some root_payload)
  ∧ (∀ items status_code,
       content_type (JSONResponse (dict_display items) status_code) = "application/json"
       ∧ json_loads (body (JSONResponse (dict_display items) status_code))
           = Some (dict_display items)).
Proof.
  rewrite !respond_spec, answer_health, answer_root.
  split; [|split].
  - eexists. do 3 (split; [done|]). apply json_loads_health.
  - eexists. do 3 (split; [done|]). apply json_loads_root.
  - intros items status_code. split; [done|].
    apply json_loads_dumps, dict_display_NoDup.
Qed.

(** When every task has been picked four times all responses are out and
    the state is the one the requests found. *)
Lemma run_schedule_quiescent (fw : Framework)
    (l : loc) (base : PyState) (reqs : list Request) (sched : list nat) :
  loaded l base →
  (∀ i, i < length reqs → 4 ≤ count_occ Nat.eq_dec sched i) →
  run_schedule fw l sched (Received <$> reqs, base)
    = (Sent <$> (answer fw <$> reqs), base).
Proof.
  intros Hl Hfair.
  pose proof (run_schedule_inv fw l base reqs sched _ Hl
                (pool_inv_init fw base reqs)) as Hinv.
  destruct (run_schedule fw l sched (Received <$> reqs, base))
    as [pool s] eqn:Hrun.
  assert (Hpool : pool = Sent <$> (answer fw <$> reqs)).
  { apply list_eq. intros i. rewrite !list_lookup_fmap.
    destruct (reqs !! i) as [req|] eqn:Hreq; cbn.
    - pose proof (run_schedule_answer fw l base reqs sched i req Hl Hreq)
        as [_ Hdone].
      rewrite Hrun in Hdone. apply Hdone, Hfair. by eapply lookup_lt_Some.
    - apply lookup_ge_None. pose proof (inv_length _ _ _ _ Hinv) as Hlen. cbn in Hlen.
      rewrite Hlen. by apply lookup_ge_None. }
  f_equal; [done|].
  eapply pool_inv_quiescent; [done|]. subst pool.
  intros i t Hi. rewrite !list_lookup_fmap in Hi.
  destruct (reqs !! i); by simplify_eq/=.
Qed.

(** C8.  Requests in flight at the same time do not interfere.  Whatever
    requests are in progress together and however the scheduler interleaves
    their steps, a request to one of the two endpoints is never answered with
    anything but the fixed response of its endpoint, and it is answered once
    it has been picked four times. *)
Theorem concurrent_requests_no_interference (fw : Framework)
    (s0 : PyState) (reqs : list Request) (sched : list nat)
    (i : nat) (req : Request) (fixed : Response) :
  reqs !! i = Some req →
  contract req = Some fixed →
  ∃ pool s,
    run_concurrent fw s0 reqs sched = Some (pool, s)
    ∧ (∀ resp, pool !! i = Some (Sent resp) → resp = fixed)
    ∧ (4 ≤ count_occ Nat.eq_dec sched i → pool !! i = Some (Sent fixed)).
Proof.
  intros Hreq Hfixed. unfold run_concurrent. rewrite startup_spec. cbn -[fresh].
  pose proof (run_schedule_answer fw _ _ reqs sched i req
                (module_state_loaded s0) Hreq) as Hans.
  rewrite (answer_contract fw req fixed Hfixed) in Hans.
  destruct (run_schedule fw _ sched _) as [pool s].
  exists pool, s. by split.
Qed.

Lemma concurrent_requests_no_interference_witness :
  [GET "/health" [] [] "a"; GET "/" [] [] "b"; mkRequest "POST" "/" [] [] "c"] !! 0
    = Some (GET "/health" [] [] "a")
  ∧ contract (GET "/health" [] [] "a") = Some health_response
  ∧ ∃ pool s,
      run_concurrent plain_framework s_init
        [GET "/health" [] [] "a"; GET "/" [] [] "b"; mkRequest "POST" "/" [] [] "c"]
        [1; 0; 0; 2; 1; 1; 0; 1; 0] = Some (pool, s)
      ∧ (∀ resp, pool !! 0 = Some (Sent resp) → resp = health_response)
      ∧ (4 ≤ count_occ Nat.eq_dec [1; 0; 0; 2; 1; 1; 0; 1; 0] 0
         → pool !! 0 = Some (Sent health_response)).
Proof.
  split; [reflexivity|]. split; [reflexivity|].
  apply (concurrent_requests_no_interference plain_framework s_init
           [GET "/health" [] [] "a"; GET "/" [] [] "b"; mkRequest "POST" "/" [] [] "c"]
           [1; 0; 0; 2; 1; 1; 0; 1; 0] 0 (GET "/health" [] [] "a") health_response);
    reflexivity.
Defined.

(** C9.  Both handlers terminate on every invocation: each returns in every
    state, the call of an endpoint is a single step of the request, every
    step of a request brings it nearer to its response whatever the state
    (no loop, nothing to wait for), and every request is answered within four
    steps. *)
Theorem handlers_terminate (fw : Framework) :
  (∀ s, ∃ o s', health_check s = (Returns o, s'))
  ∧ (∀ s, ∃ o s', read_root s = (Returns o, s'))
  ∧ (∀ l r s, ∃ o s', step_task fw l (Routed r) s = (Returned r o, s'))
  ∧ (∀ l t s, remaining (step_task fw l t s).1 ≤ pred (remaining t))
  ∧ (∀ l req s, ∃ resp, (steps_task fw 4 l (Received req) s).1 = Sent resp).
Proof.
  split; [intros s; rewrite health_check_spec; eauto|].
  split; [intros s; rewrite read_root_spec; eauto|].
  split; [intros l r s; rewrite step_routed; eauto|].
  split; [apply step_task_progress|].
  intros l req s. by apply steps_task_sent.
Qed.

(** C10, as the code has it.  The module body binds four names at module
    level: the imported class, the two functions, and [app]; [app] is the
    only one bound to an object of the store, the route registry.  Neither
    handler reads or writes a module-level name, every invocation builds a new
    dictionary, and no invocation observes or changes what another one
    built. *)
Theorem module_state_isolated (s0 : PyState) :
  (∃ l s,
     startup s0 = Some (l, s)
     ∧ dom (globals s) = list_to_set ["FastAPI"; "app"; "health_check"; "read_root"]
     ∧ (∀ x o, globals s !! x = Some (VRef o) → x = "app" ∧ o = l)
     ∧ globals s !! "app" = Some (VRef l)
     ∧ heap s !! l = Some (ObjApp app))
  ∧ (ignores_globals health_check ∧ ignores_globals read_root)
  ∧ (returns_fresh health_check health_payload ∧ returns_fresh read_root root_payload)
  ∧ (calls_independent health_check health_payload
     ∧ calls_independent read_root root_payload).
Proof.
  split.
  - rewrite startup_spec. do 2 eexists. split; [done|].
    unfold module_state, module_globals. cbn -[fresh].
    split; [|split; [|split]].
    + rewrite !dom_insert_L, dom_empty_L. set_solver.
    + intros x o Hx.
      repeat (apply lookup_insert_Some in Hx as [[<- Hx]|[_ Hx]]; [by simplify_eq|]).
      done.
    + done.
    + apply lookup_insert_eq.
  - split; [|split]; split.
    + apply (call_ignores_globals fn_health_check).
    + apply (call_ignores_globals fn_read_root).
    + apply (call_returns_fresh fn_health_check).
    + apply (call_returns_fresh fn_read_root).
    + apply (call_calls_independent fn_health_check).
    + apply (call_calls_independent fn_read_root).
Qed.

(** C10, as it is worded: [app] is not the only module-level binding.  In
    the process started from [s_init] the name [health_check] is bound
    too. *)
Lemma app_not_the_only_binding :
  ¬ (∀ l s x, startup s_init = Some (l, s) → is_Some (globals s !! x) → x = "app").
Proof.
  intros H.
  specialize (H _ _ "health_check" (startup_spec s_init)).
  discriminate H. by eexists.
Qed.

(* ===================================================================== *)
(** * Further properties of the module *)
(* ===================================================================== *)

(** ** Importing the module *)



(** ** What the registry routes *)

Lemma find_route_app (req : Request) :
  find_route (routes app) req =
    if decide (req_method req = "GET") then
      if decide (req_path req = "/health") then
        Some (mkRoute "/health" ["GET"] fn_health_check 200)
      else if decide (req_path req = "/") then
        Some (mkRoute "/" ["GET"] fn_read_root 200)
      else None
    else None.
Proof.
  destruct req as [m p q h b]. unfold find_route, route_matches, app, routes.
  cbn [find route_path route_methods req_path req_method].
  assert (Hm : ∀ m', bool_decide (m' ∈ ["GET"]) = bool_decide (m' = "GET")).
  { intros m'. apply bool_decide_ext. rewrite list_elem_of_singleton. done. }
  rewrite !Hm.
  repeat case_decide; subst;
    repeat (first [rewrite bool_decide_eq_true_2 by done
                  |rewrite bool_decide_eq_false_2 by done]);
    try done.
Qed.



(** X3.  No request matches both routes, so the order in which the module
    registers its two endpoints decides nothing: searched in the opposite
    order the registry gives every request the same route. *)
Theorem routes_do_not_overlap (req : Request) :
  (∀ r1 r2, r1 ∈ routes app → r2 ∈ routes app →
     route_matches r1 req = true → route_matches r2 req = true → r1 = r2)
  ∧ find_route (reverse (routes app)) req = find_route (routes app) req.
Proof.
  split.
  - intros r1 r2 H1 H2. unfold app, routes in H1, H2.
    rewrite !elem_of_cons in H1, H2. unfold route_matches.
    destruct H1 as [->|[->|H1]], H2 as [->|[->|H2]];
      try (by apply elem_of_nil in H1); try (by apply elem_of_nil in H2);
      try done; cbn;
      rewrite !andb_true_iff, !bool_decide_eq_true; intros [Hp1 _] [Hp2 _];
      congruence.
  - rewrite find_route_app. destruct req as [m p q h b].
    unfold find_route, route_matches, app, routes.
    cbn [find reverse rev_append route_path route_methods req_path req_method].
    assert (Hm : ∀ m', bool_decide (m' ∈ ["GET"]) = bool_decide (m' = "GET")).
    { intros m'. apply bool_decide_ext. rewrite list_elem_of_singleton. done. }
    rewrite !Hm.
    repeat case_decide; subst;
      repeat (first [rewrite bool_decide_eq_true_2 by done
                    |rewrite bool_decide_eq_false_2 by done]);
      try done.
Qed.

(** ** Interleaved and sequential service agree *)

(** X4.  Requests in flight together are served as if one after the other.
    Whatever the requests, and whatever the schedule provided every request
    is picked four times, the responses are, request by request, those of
    the sequential service, and the state left behind is the same one. *)
Theorem interleaved_equals_sequential (fw : Framework) (s0 : PyState)
    (reqs : list Request) (sched : list nat) :
  (∀ i, i < length reqs → 4 ≤ count_occ Nat.eq_dec sched i) →
  ∃ l s resps,
    state_after fw s0 reqs = Some (l, s)
    ∧ run fw s0 reqs = Some resps
    ∧ run_concurrent fw s0 reqs sched = Some (Sent <$> resps, s).
Proof.
  intros Hfair. rewrite state_after_spec, run_spec. do 3 eexists.
  split; [done|]. split; [done|].
  unfold run_concurrent. rewrite startup_spec. cbn -[fresh].
  by rewrite (run_schedule_quiescent fw _ _ reqs sched (module_state_loaded s0) Hfair).
Qed.

Lemma interleaved_equals_sequential_witness :
  (∀ i, i < length [GET "/health" [] [] ""; mkRequest "PUT" "/" [] [] ""; GET "/" [] [] ""] →
     4 ≤ count_occ Nat.eq_dec [2; 0; 1; 1; 2; 0; 0; 2; 1; 0; 2; 1] i)
  ∧ ∃ l s resps,
      state_after plain_framework s_init
        [GET "/health" [] [] ""; mkRequest "PUT" "/" [] [] ""; GET "/" [] [] ""] = Some (l, s)
      ∧ run plain_framework s_init
          [GET "/health" [] [] ""; mkRequest "PUT" "/" [] [] ""; GET "/" [] [] ""] = Some resps
      ∧ run_concurrent plain_framework s_init
          [GET "/health" [] [] ""; mkRequest "PUT" "/" [] [] ""; GET "/" [] [] ""]
          [2; 0; 1; 1; 2; 0; 0; 2; 1; 0; 2; 1] = Some (Sent <$> resps, s).
Proof.
  assert (H : ∀ i,
    i < length [GET "/health" [] [] ""; mkRequest "PUT" "/" [] [] ""; GET "/" [] [] ""] →
    4 ≤ count_occ Nat.eq_dec [2; 0; 1; 1; 2; 0; 0; 2; 1; 0; 2; 1] i).
  { intros [|[|[|i]]] Hi; cbn in *; lia. }
  split; [exact H|].
  exact (interleaved_equals_sequential plain_framework s_init
           [GET "/health" [] [] ""; mkRequest "PUT" "/" [] [] ""; GET "/" [] [] ""]
           [2; 0; 1; 1; 2; 0; 0; 2; 1; 0; 2; 1] H).
Defined.
